(** * DeepPavlov ODQA preprocessors: DocumentChunker and StringMultiplier

    A shallow embedding of
    [deeppavlov/models/preprocessors/odqa_preprocessors.py].

    Python values are modelled as follows.
    - A [str] is a Rocq [string], one [ascii] per code point; the model
      covers the code points below 256.
    - A Python [int] is a [Z]; [len] is a [nat].
    - A Python [list] is a [list]; indexing is stdpp's lookup [!!], with the
      [IndexError] of an out-of-range index written out.
    - A raising computation is a value of [exc], a small error monad.
    - Heterogeneous results (a chunk is a [str] in two modes and a list of
      tokens in the third) are values of [pyval]. *)

From Stdlib Require Import ZArith String Ascii List Bool Lia.
From stdpp Require Import base list.
Import ListNotations.

Local Open Scope string_scope.
Local Open Scope Z_scope.

(** ** Python exceptions *)

Inductive pyerror : Type :=
| IndexError
| ValueError.

Inductive exc (A : Type) : Type :=
| Ok (a : A)
| Raise (e : pyerror).
Arguments Ok {A} a.
Arguments Raise {A} e.

Definition bind {A B} (m : exc A) (k : A -> exc B) : exc B :=
  match m with
  | Ok a => k a
  | Raise e => Raise e
  end.

Notation "'do' x <- m ; k" := (bind m (fun x => k))
  (at level 10, x name, m at level 100, k at level 200).

(** A [for] loop that appends one computed entry per element. *)
Fixpoint for_append {A B} (f : A -> exc B) (l : list A) : exc (list B) :=
  match l with
  | [] => Ok []
  | x :: l' => do y <- f x; do ys <- for_append f l'; Ok (y :: ys)
  end.

(** [l[i]] *)
Definition getitem {A} (l : list A) (i : nat) : exc A :=
  match l !! i with
  | Some x => Ok x
  | None => Raise IndexError
  end.

(** ** Python strings *)

Module Str.

Definition nl : ascii := ascii_of_nat 10.

(** The delimiter of [doc.split('\n\n')]. *)
Definition para_sep : string := String nl (String nl "").

(** [str.isspace] on one code point below 256. *)
Definition isspace (c : ascii) : bool :=
  let n := nat_of_ascii c in
  ((9 <=? n) && (n <=? 13) || (28 <=? n) && (n <=? 32)
   || (n =? 133) || (n =? 160))%nat.

Definition is_empty (s : string) : bool :=
  match s with
  | EmptyString => true
  | String _ _ => false
  end.

(** [len(s)] *)
Definition len (s : string) : nat := String.length s.

(** [s.lstrip()] *)
Fixpoint lstrip (s : string) : string :=
  match s with
  | EmptyString => EmptyString
  | String c s' => if isspace c then lstrip s' else s
  end.

(** [s.rstrip()] *)
Fixpoint rstrip (s : string) : string :=
  match s with
  | EmptyString => EmptyString
  | String c s' =>
      let r := rstrip s' in
      if isspace c && is_empty r then EmptyString else String c r
  end.

(** [s.strip()] *)
Definition strip (s : string) : string := lstrip (rstrip s).

(** The token under construction is closed when whitespace or the end of
    the string is met; an empty one is not a token. *)
Definition close_token (cur : string) : list string :=
  if is_empty cur then [] else [cur].

Fixpoint split_from (cur : string) (s : string) : list string :=
  match s with
  | EmptyString => close_token cur
  | String c s' =>
      if isspace c then close_token cur ++ split_from "" s'
      else split_from (cur ++ String c "") s'
  end.

(** [s.split()]: the maximal runs of non-whitespace characters. *)
Definition split (s : string) : list string := split_from "" s.

Definition cons_head (c : ascii) (pieces : list string) : list string :=
  match pieces with
  | [] => [String c ""]
  | p :: ps => String c p :: ps
  end.

(** [s.split('\n\n')]: cut at each occurrence of two newlines, scanning
    from the left; the pieces may be empty. *)
Fixpoint split_para (s : string) : list string :=
  match s with
  | EmptyString => [""]
  | String c s' =>
      match s' with
      | String c' s'' =>
          if Ascii.eqb c nl && Ascii.eqb c' nl then "" :: split_para s''
          else cons_head c (split_para s')
      | EmptyString => [String c ""]
      end
  end.

(** [sep.join(l)] *)
Fixpoint join (sep : string) (l : list string) : string :=
  match l with
  | [] => ""
  | [x] => x
  | x :: l' => x ++ sep ++ join sep l'
  end.

End Str.

(** ** Python lists and values *)

(** [range(start, stop, step)]; a zero step raises [ValueError]. *)
Definition range_len (start stop step : Z) : Z :=
  if 0 <? step then (stop - start + step - 1) / step
  else (start - stop - step - 1) / (- step).

Definition range (start stop step : Z) : exc (list Z) :=
  if step =? 0 then Raise ValueError
  else Ok ((fun k => start + k * step) <$> seqZ 0 (range_len start stop step)).

(** A slice bound: a negative one counts from the end, and both are clipped
    to the list. *)
Definition slice_bound (n i : Z) : Z :=
  if i <? 0 then Z.max 0 (i + n) else Z.min i n.

(** [l[i:j]] *)
Definition slice {A} (l : list A) (i j : Z) : list A :=
  let n := Z.of_nat (length l) in
  let lo := slice_bound n i in
  let hi := slice_bound n j in
  take (Z.to_nat (hi - lo)) (drop (Z.to_nat lo) l).

(** The values a result entry can hold. *)
#[warnings="-register-all"]
Inductive pyval : Type :=
| PStr (s : string)
| PList (l : list pyval).

(** [isinstance(x, list)] *)
Definition isinstance_list (x : pyval) : bool :=
  match x with
  | PList _ => true
  | PStr _ => false
  end.

(** The characters of a [str], as iteration yields them. *)
Fixpoint chars (s : string) : list string :=
  match s with
  | EmptyString => []
  | String c s' => String c "" :: chars s'
  end.

(** [iter(x)] for the two kinds of value. *)
Definition iterate (x : pyval) : list pyval :=
  match x with
  | PList l => l
  | PStr s => PStr <$> chars s
  end.

(** [list(chain.from_iterable(entry))] *)
Definition chain_from_iterable (entry : list pyval) : list pyval :=
  concat (iterate <$> entry).

(** An element of [batch_docs]: one document or a list of documents. *)
Inductive docs_arg : Type :=
| Doc (doc : string)
| DocList (docs : list string).

(** ** DocumentChunker *)

Module DocumentChunker.

(** The attributes set by [__init__]. *)
Record t : Type := {
  _sentencize_fn : string -> list string;
  keep_sentences : bool;
  tokens_limit : Z;
  flatten_result : bool;
  paragraphs : bool
}.

(** [__init__], lines 49-53. *)
Definition init (sentencize_fn : string -> list string)
    (keep_sentences : bool) (tokens_limit : Z) (flatten_result : bool)
    (paragraphs : bool) : t :=
  {| _sentencize_fn := sentencize_fn;
     keep_sentences := keep_sentences;
     tokens_limit := tokens_limit;
     flatten_result := flatten_result;
     paragraphs := paragraphs |}.

(** [if isinstance(docs, str): docs = [docs]] *)
Definition docs_of (docs : docs_arg) : list string :=
  match docs with
  | Doc d => [d]
  | DocList ds => ds
  end.

(** Paragraph mode, lines 72-74. *)
Definition paragraph_chunks (doc : string) : list string :=
  let split_doc := Str.split_para doc in
  let split_doc := Str.strip <$> split_doc in
  List.filter (fun x => (40 <? Str.len x)%nat) split_doc.

(** The variables of the sentence loop, lines 77-91. *)
Record sentence_loop : Type := {
  doc_chunks : list string;
  n_tokens : Z;
  keep : list string
}.

Definition sentence_loop_init : sentence_loop :=
  {| doc_chunks := []; n_tokens := 0; keep := [] |}.

(** A list is true when it is not empty. *)
Definition truthy {A} (l : list A) : bool :=
  match l with
  | [] => false
  | _ :: _ => true
  end.

(** [len(s.split())] *)
Definition word_count (s : string) : Z := Z.of_nat (length (Str.split s)).

(** The body of [for s in sentences], lines 83-89. *)
Definition sentence_step (limit : Z) (st : sentence_loop) (s : string)
  : sentence_loop :=
  let n := n_tokens st + word_count s in
  if limit <? n then
    if truthy (keep st) then
      {| doc_chunks := doc_chunks st ++ [Str.join " " (keep st)];
         n_tokens := 0;
         keep := [s] |}
    else
      {| doc_chunks := doc_chunks st; n_tokens := n; keep := [s] |}
  else
    {| doc_chunks := doc_chunks st; n_tokens := n; keep := keep st ++ [s] |}.

(** Lines 90-91. *)
Definition sentence_finish (st : sentence_loop) : list string :=
  if truthy (keep st) then doc_chunks st ++ [Str.join " " (keep st)]
  else doc_chunks st.

Definition sentence_chunks (limit : Z) (sentences : list string)
  : list string :=
  sentence_finish (foldl (sentence_step limit) sentence_loop_init sentences).

(** Token-window mode, lines 95-96. *)
Definition token_windows (limit : Z) (split_doc : list string)
  : exc (list (list string)) :=
  do starts <- range 0 (Z.of_nat (length split_doc)) limit;
  Ok ((fun i => slice split_doc i (i + limit)) <$> starts).

(** Lines 100-104: the in-place flattening of [result]. *)
Fixpoint flatten_loop (indices : list nat) (result : list (list pyval))
  : exc (list (list pyval)) :=
  match indices with
  | [] => Ok result
  | i :: indices' =>
      do entry <- getitem result i;
      flatten_loop indices' (<[i := chain_from_iterable entry]> result)
  end.

Section WithTokenizer.

(** [nltk.sent_tokenize], imported at line 18. *)
Variable sent_tokenize : string -> list string.

(** The body of [for doc in docs], lines 71-97: the entry appended to
    [batch_chunks]. *)
Definition chunk_doc (self : t) (doc : string) : exc pyval :=
  if paragraphs self then
    Ok (PList (PStr <$> paragraph_chunks doc))
  else if keep_sentences self then
    let sentences := sent_tokenize doc in
    Ok (PList (PStr <$> sentence_chunks (tokens_limit self) sentences))
  else
    let split_doc := Str.split doc in
    do windows <- token_windows (tokens_limit self) split_doc;
    Ok (PList ((fun w => PList (PStr <$> w)) <$> windows)).

(** The body of [for docs in batch_docs], lines 67-98. *)
Definition chunk_docs (self : t) (docs : docs_arg) : exc (list pyval) :=
  for_append (chunk_doc self) (docs_of docs).

(** [DocumentChunker.__call__] *)
Definition call (self : t) (batch_docs : list docs_arg)
  : exc (list (list pyval)) :=
  do result <- for_append (chunk_docs self) batch_docs;
  if flatten_result self then
    do first <- getitem result 0;
    do x <- getitem first 0;
    if isinstance_list x then
      flatten_loop (seq 0 (length result)) result
    else Ok result
  else Ok result.

End WithTokenizer.

End DocumentChunker.

(** ** StringMultiplier *)

Module StringMultiplier.

(** [StringMultiplier.__call__]; an element of [ref] is any sequence, and
    only its length is used. *)
Definition call {A} (batch_s : list string) (ref : list (list A))
  : exc (list (list string)) :=
  Ok (foldl (fun res '(s, r) => (res ++ [replicate (length r) s])%list)
            [] (zip batch_s ref)).

End StringMultiplier.

(** ** The accumulation as the specification words it *)

Module Spec.

Import DocumentChunker.

(** The running counter and the accumulated group are threaded through the
    sentences: the sentence's token count is added to the counter; if the
    counter then exceeds the limit and the group is not empty, the group is
    flushed as one chunk, the counter is reset, and the sentence starts
    the next group; otherwise the sentence joins the group.  At the end a
    remaining non-empty group is flushed. *)
Fixpoint greedy (limit counter : Z) (group sentences : list string)
  : list string :=
  match sentences with
  | [] =>
      match group with
      | [] => []
      | _ :: _ => [Str.join " " group]
      end
  | s :: rest =>
      let counter' := counter + word_count s in
      if (limit <? counter') && truthy group
      then Str.join " " group :: greedy limit 0 [s] rest
      else greedy limit counter' (group ++ [s]) rest
  end.

(** The token count of a run of sentences. *)
Definition total_words (l : list string) : Z :=
  foldr (fun s acc => word_count s + acc) 0 l.

(** A flushed group: a first sentence, followed by sentences that
    together stay within the limit. *)
Definition bounded_group (limit : Z) (g : list string) : Prop :=
  exists first others,
    g = first :: others /\ (others = [] \/ total_words others <= limit).

(** What the loop maintains between two sentences: the counter covers
    at least the sentences that follow the first one of the group, and
    it is within the limit once the group has a second sentence. *)
Definition counter_ok (limit counter : Z) (group : list string) : Prop :=
  0 <= counter /\
  match group with
  | [] => counter = 0
  | _ :: others =>
      total_words others <= counter /\ (others = [] \/ counter <= limit)
  end.

(** A configuration whose loop over the documents cannot raise: the
    token-window mode is not used with a limit of zero. *)
Definition runs_through (self : t) : Prop :=
  paragraphs self = true \/ keep_sentences self = true \/
  tokens_limit self <> 0.

(** The number of windows over [n] tokens: [n / size], rounded up. *)
Definition window_count (n size : Z) : nat :=
  Z.to_nat ((n + size - 1) / size).

(** Windows of a fixed positive size, the last one possibly shorter. *)
Definition full_windows {A} (size : nat) (windows : list (list A)) : Prop :=
  forall i w, windows !! i = Some w ->
    (0 < length w <= size)%nat /\
    (S i < length windows -> length w = size)%nat.

End Spec.

(** A tokenizer for the examples: a sentence ends at a full stop that is
    followed by a space. *)
Fixpoint stop_tokenize_from (cur s : string) : list string :=
  match s with
  | EmptyString => Str.close_token cur
  | String c s' =>
      match s' with
      | String c' s'' =>
          if Ascii.eqb c "." && Ascii.eqb c' " "
          then (cur ++ ".") :: stop_tokenize_from "" s''
          else stop_tokenize_from (cur ++ String c "") s'
      | EmptyString => [cur ++ String c ""]
      end
  end.

Definition stop_tokenize (doc : string) : list string :=
  stop_tokenize_from "" doc.

(** ** Shapes of strings *)

Module Shape.

(** [s] holds two newlines in a row, the delimiter of the paragraph mode. *)
Fixpoint has_para_break (s : string) : bool :=
  match s with
  | String c (String c' _ as s') =>
      (Ascii.eqb c Str.nl && Ascii.eqb c' Str.nl) || has_para_break s'
  | _ => false
  end.

(** Every character of [s] is whitespace. *)
Fixpoint all_space (s : string) : bool :=
  match s with
  | EmptyString => true
  | String c s' => Str.isspace c && all_space s'
  end.

(** [s] holds no whitespace character. *)
Fixpoint no_space (s : string) : bool :=
  match s with
  | EmptyString => true
  | String c s' => negb (Str.isspace c) && no_space s'
  end.

End Shape.

(** * Properties *)

Example split_ex : Str.split "  a b   c " = ["a"; "b"; "c"].
Proof. reflexivity. Qed.

Example split_para_ex :
  Str.split_para ("ab" ++ Str.para_sep ++ String Str.nl "c" ++ Str.para_sep)
  = ["ab"; String Str.nl "c"; ""].
Proof. reflexivity. Qed.

Example strip_ex : Str.strip "  a b  " = "a b".
Proof. reflexivity. Qed.

(** ** Strings *)

Lemma split_from_app_space cur a b :
  Str.split_from cur (a ++ String " " b)
  = (Str.split_from cur a ++ Str.split b)%list.
Proof.
  revert cur. induction a as [|c a IH]; intros cur; simpl.
  - reflexivity.
  - destruct (Str.isspace c).
    + rewrite IH. now rewrite <- app_assoc.
    + apply IH.
Qed.

Lemma split_app_space a b :
  Str.split (a ++ " " ++ b) = (Str.split a ++ Str.split b)%list.
Proof. apply split_from_app_space. Qed.

Import DocumentChunker Spec.

Lemma word_count_nonneg s : 0 <= word_count s.
Proof. unfold word_count. lia. Qed.

Lemma total_words_nonneg l : 0 <= total_words l.
Proof.
  induction l as [|s l IH]; simpl; [lia|].
  pose proof (word_count_nonneg s). lia.
Qed.

Lemma total_words_app l1 l2 :
  total_words (l1 ++ l2) = total_words l1 + total_words l2.
Proof. induction l1 as [|s l1 IH]; simpl; lia. Qed.

Lemma word_count_join l :
  word_count (Str.join " " l) = total_words l.
Proof.
  induction l as [|x l IH]; [reflexivity|].
  destruct l as [|y l].
  - simpl. lia.
  - change (Str.join " " (x :: y :: l))
      with (x ++ " " ++ Str.join " " (y :: l)).
    unfold word_count in *. rewrite split_app_space, length_app.
    change (total_words (x :: y :: l))
      with (Z.of_nat (length (Str.split x)) + total_words (y :: l)).
    lia.
Qed.

(** ** The sentence loop *)

Lemma sentence_loop_greedy limit sentences : forall st,
  sentence_finish (foldl (sentence_step limit) st sentences)
  = (doc_chunks st ++ greedy limit (n_tokens st) (keep st) sentences)%list.
Proof.
  induction sentences as [|s rest IH]; intros [chunks n kept]; simpl.
  - unfold sentence_finish; simpl. destruct kept; simpl.
    + now rewrite app_nil_r.
    + reflexivity.
  - rewrite IH. unfold sentence_step; simpl.
    destruct (limit <? n + word_count s); simpl; [|reflexivity].
    destruct kept; simpl; [reflexivity|].
    now rewrite <- app_assoc.
Qed.

Lemma sentence_chunks_greedy limit sentences :
  sentence_chunks limit sentences = greedy limit 0 [] sentences.
Proof. unfold sentence_chunks. now rewrite sentence_loop_greedy. Qed.

Lemma counter_ok_flush limit counter first others :
  counter_ok limit counter (first :: others) ->
  bounded_group limit (first :: others).
Proof.
  intros [_ [Hsum Hlim]]. exists first, others. split; [reflexivity|].
  destruct Hlim as [->|Hlim]; [now left|right; lia].
Qed.

Lemma counter_ok_start limit s : counter_ok limit 0 [s].
Proof. repeat split; simpl; auto; lia. Qed.

Lemma counter_ok_append limit counter group s :
  counter_ok limit counter group ->
  (limit <? counter + word_count s) && truthy group = false ->
  counter_ok limit (counter + word_count s) (group ++ [s]).
Proof.
  intros [Hpos Hgrp] Hno. pose proof (word_count_nonneg s) as Hs.
  split; [lia|]. destruct group as [|first others]; simpl in *.
  - split; [lia|now left].
  - rewrite andb_true_r in Hno. apply Z.ltb_ge in Hno.
    destruct Hgrp as [Hsum _]. rewrite total_words_app; simpl.
    split; [lia|right; lia].
Qed.

(** The chunks are the groups of a partition of the sentences into
    bounded groups. *)
Lemma greedy_groups limit sentences : forall counter group,
  counter_ok limit counter group ->
  exists groups,
    greedy limit counter group sentences = Str.join " " <$> groups /\
    concat groups = (group ++ sentences)%list /\
    Forall (bounded_group limit) groups.
Proof.
  induction sentences as [|s rest IH]; intros counter group Hok; simpl.
  - destruct group as [|first others].
    + exists []. repeat split; constructor.
    + exists [first :: others]. simpl. rewrite !app_nil_r.
      repeat split. constructor; [|constructor].
      eapply counter_ok_flush; eauto.
  - destruct ((limit <? counter + word_count s) && truthy group) eqn:Hflush.
    + apply andb_true_iff in Hflush as [_ Hne].
      destruct group as [|first others]; [discriminate|].
      destruct (IH 0 [s] (counter_ok_start limit s)) as (gs & Heq & Hcat & Hall).
      exists ((first :: others) :: gs). rewrite Heq. simpl.
      split; [reflexivity|]. split.
      * rewrite Hcat. reflexivity.
      * constructor; [eapply counter_ok_flush; eauto|assumption].
    + destruct (IH _ _ (counter_ok_append _ _ _ _ Hok Hflush))
        as (gs & Heq & Hcat & Hall).
      exists gs. rewrite <- app_assoc in Hcat. auto.
Qed.

Lemma counter_ok_init limit : counter_ok limit 0 [].
Proof. split; [lia|reflexivity]. Qed.

Lemma bounded_group_words limit g :
  0 <= limit -> bounded_group limit g ->
  exists first others,
    g = first :: others /\
    word_count (Str.join " " g) <= limit + word_count first.
Proof.
  intros Hlim (first & others & -> & Hothers).
  exists first, others. split; [reflexivity|].
  rewrite word_count_join. simpl.
  destruct Hothers as [->|Hle]; simpl; lia.
Qed.

Lemma bounded_group_tail limit g :
  bounded_group limit g ->
  exists first others,
    g = first :: others /\ Forall (fun s => word_count s <= limit) others.
Proof.
  intros (first & others & -> & Hothers).
  exists first, others. split; [reflexivity|].
  destruct Hothers as [->|Hle]; [constructor|].
  induction others as [|s others IH]; [constructor|].
  simpl in Hle. pose proof (total_words_nonneg others).
  pose proof (word_count_nonneg s).
  constructor; [lia|apply IH; lia].
Qed.

Lemma greedy_first_oversized limit s rest :
  limit < word_count s ->
  exists more, greedy limit 0 [] (s :: rest) = s :: more.
Proof.
  intros Hbig. simpl. rewrite andb_false_r.
  destruct rest as [|s2 rest]; simpl.
  - now exists [].
  - pose proof (word_count_nonneg s2).
    destruct (limit <? 0 + word_count s + word_count s2) eqn:Hcmp; simpl.
    + eauto.
    + apply Z.ltb_ge in Hcmp. lia.
Qed.

(** ** Paragraph mode *)

Lemma split_para_cons2 c c' s :
  Str.split_para (String c (String c' s))
  = if Ascii.eqb c Str.nl && Ascii.eqb c' Str.nl
    then "" :: Str.split_para s
    else Str.cons_head c (Str.split_para (String c' s)).
Proof. reflexivity. Qed.

Lemma cons_head_nonempty c pieces : Str.cons_head c pieces <> [].
Proof. destruct pieces; discriminate. Qed.

Lemma split_para_nonempty s : Str.split_para s <> [].
Proof.
  destruct s as [|c [|c' s]]; try discriminate.
  rewrite split_para_cons2.
  destruct (Ascii.eqb c Str.nl && Ascii.eqb c' Str.nl); [discriminate|].
  apply cons_head_nonempty.
Qed.

Lemma join_cons_head sep c pieces :
  pieces <> [] ->
  Str.join sep (Str.cons_head c pieces) = String c (Str.join sep pieces).
Proof.
  destruct pieces as [|p [|q ps]]; [congruence|reflexivity|reflexivity].
Qed.

Lemma join_cons_nonempty sep x l :
  l <> [] -> Str.join sep (x :: l) = x ++ sep ++ Str.join sep l.
Proof. destruct l; [congruence|reflexivity]. Qed.

(** Joining the pieces with the delimiter gives the document back. *)
Lemma join_split_para s :
  Str.join Str.para_sep (Str.split_para s) = s.
Proof.
  assert (H : Str.join Str.para_sep (Str.split_para s) = s /\
              forall c, Str.join Str.para_sep (Str.split_para (String c s))
                        = String c s); [|apply H].
  induction s as [|a s [IH1 IH2]].
  - split; reflexivity.
  - split; [apply IH2|]. intros c.
    rewrite split_para_cons2.
    destruct (Ascii.eqb c Str.nl && Ascii.eqb a Str.nl) eqn:Hsep.
    + apply andb_true_iff in Hsep as [Hc Ha].
      apply Ascii.eqb_eq in Hc. apply Ascii.eqb_eq in Ha. subst c a.
      rewrite join_cons_nonempty; [|apply split_para_nonempty].
      now rewrite IH1.
    + rewrite join_cons_head; [|apply split_para_nonempty].
      now rewrite IH2.
Qed.

Lemma filter_long_pieces (pieces : list string) :
  List.filter (fun x => (40 <? Str.len x)%nat) pieces
  = filter (fun x => ~ (Str.len x <= 40)%nat) pieces.
Proof.
  induction pieces as [|p pieces IH]; [reflexivity|].
  simpl. rewrite filter_cons, IH.
  destruct (40 <? Str.len p)%nat eqn:Hlen, (decide (~ (Str.len p <= 40)%nat))
    as [Hd|Hd]; try reflexivity.
  - apply Nat.ltb_lt in Hlen. exfalso. apply Hd. lia.
  - apply Nat.ltb_ge in Hlen. contradiction.
Qed.

(** ** Token windows *)

Lemma slice_window {A} (toks : list A) (i size : nat) :
  slice toks (Z.of_nat i) (Z.of_nat i + Z.of_nat size)
  = take size (drop i toks).
Proof.
  unfold slice, slice_bound.
  destruct (Z.of_nat i <? 0) eqn:Hi; [apply Z.ltb_lt in Hi; lia|].
  destruct (Z.of_nat i + Z.of_nat size <? 0) eqn:Hj;
    [apply Z.ltb_lt in Hj; lia|].
  destruct (Nat.le_gt_cases i (length toks)) as [Hin|Hout].
  - rewrite (Z.min_l (Z.of_nat i)) by lia. rewrite Nat2Z.id.
    destruct (Nat.le_gt_cases (i + size) (length toks)) as [Hfull|Hshort].
    + rewrite Z.min_l by lia. f_equal. lia.
    + rewrite Z.min_r by lia.
      rewrite !take_ge; [reflexivity| |]; rewrite length_drop; lia.
  - rewrite !Z.min_r by lia. rewrite Z.sub_diag. simpl.
    rewrite (drop_ge toks i) by lia. now rewrite take_nil.
Qed.

Lemma window_count_bounds n size :
  0 <= n -> 0 < size ->
  n <= Z.of_nat (window_count n size) * size < n + size.
Proof.
  intros Hn Hsize. unfold window_count.
  pose proof (Z.div_pos (n + size - 1) size ltac:(lia) Hsize) as Hpos.
  rewrite Z2Nat.id by exact Hpos.
  pose proof (Z.mul_div_le (n + size - 1) size Hsize).
  pose proof (Z.mul_succ_div_gt (n + size - 1) size Hsize).
  lia.
Qed.

Lemma token_windows_seq (size : nat) (toks : list string) :
  (0 < size)%nat ->
  token_windows (Z.of_nat size) toks
  = Ok ((fun k : nat => take size (drop (k * size) toks))
          <$> seq 0 (window_count (Z.of_nat (length toks)) (Z.of_nat size))).
Proof.
  intros Hsize. unfold token_windows, range, range_len, window_count.
  destruct (Z.of_nat size =? 0) eqn:H0; [apply Z.eqb_eq in H0; lia|].
  destruct (0 <? Z.of_nat size) eqn:Hpos; [|apply Z.ltb_ge in Hpos; lia].
  simpl. f_equal. unfold seqZ. rewrite <- !list_fmap_compose.
  replace (Z.of_nat (length toks) - 0 + Z.of_nat size - 1)
    with (Z.of_nat (length toks) + Z.of_nat size - 1) by lia.
  apply list_fmap_ext. intros _ k _. simpl.
  replace (0 + (Z.of_nat k + 0) * Z.of_nat size)
    with (Z.of_nat (k * size)) by lia.
  apply slice_window.
Qed.

Lemma windows_cons {A} (size m : nat) (toks : list A) :
  (fun k => take size (drop (k * size) toks)) <$> seq 0 (S m)
  = take size toks
    :: ((fun k => take size (drop (k * size) (drop size toks))) <$> seq 0 m).
Proof.
  simpl. f_equal. rewrite <- fmap_S_seq, <- list_fmap_compose.
  apply list_fmap_ext. intros _ k _. simpl.
  rewrite drop_drop. reflexivity.
Qed.

Lemma windows_concat {A} (size m : nat) : forall toks : list A,
  (length toks <= m * size)%nat ->
  concat ((fun k => take size (drop (k * size) toks)) <$> seq 0 m) = toks.
Proof.
  induction m as [|m IH]; intros toks Hlen.
  - destruct toks; [reflexivity|simpl in Hlen; lia].
  - rewrite windows_cons. simpl. rewrite IH.
    + apply take_drop.
    + rewrite length_drop. lia.
Qed.

Lemma windows_full {A} (size m : nat) (toks : list A) :
  (0 < size)%nat ->
  (m * size < length toks + size)%nat ->
  full_windows size
    ((fun k => take size (drop (k * size) toks)) <$> seq 0 m).
Proof.
  intros Hsize Hm i w Hw.
  rewrite list_lookup_fmap in Hw.
  destruct (seq 0 m !! i) as [k|] eqn:Hk; [|discriminate].
  apply lookup_seq in Hk as [-> Hi]. simpl in Hw.
  injection Hw as <-. rewrite length_fmap, length_seq.
  rewrite length_take, length_drop. split; [nia|]. intros Hnext. nia.
Qed.

(** ** StringMultiplier *)

Lemma multiplier_loop {A} (batch_s : list string) : forall (ref : list (list A)) acc,
  foldl (fun res '(s, r) => (res ++ [replicate (length r) s])%list)
        acc (zip batch_s ref)
  = (acc ++ zip_with (fun s r => replicate (length r) s) batch_s ref)%list.
Proof.
  induction batch_s as [|s batch_s IH]; intros [|r ref] acc; simpl;
    try (now rewrite app_nil_r).
  rewrite IH, <- app_assoc. reflexivity.
Qed.

Lemma multiplier_call {A} (batch_s : list string) (ref : list (list A)) :
  StringMultiplier.call batch_s ref
  = Ok (zip_with (fun s r => replicate (length r) s) batch_s ref).
Proof. unfold StringMultiplier.call. now rewrite multiplier_loop. Qed.

Lemma multiplier_lookup {A} (batch_s : list string) (ref : list (list A)) i :
  zip_with (fun s r => replicate (length r) s) batch_s ref !! i
  = match batch_s !! i, ref !! i with
    | Some s, Some r => Some (replicate (length r) s)
    | _, _ => None
    end.
Proof.
  rewrite lookup_zip_with.
  destruct (batch_s !! i); simpl; [|reflexivity].
  destruct (ref !! i); reflexivity.
Qed.

(** ** The loops of DocumentChunker *)

Lemma for_append_Ok {A B} (f : A -> exc B) l r :
  for_append f l = Ok r <-> Forall2 (fun x y => f x = Ok y) l r.
Proof.
  revert r. induction l as [|x l IH]; intros r; simpl.
  - split.
    + intros [= <-]. constructor.
    + intros H. inversion H. reflexivity.
  - split.
    + destruct (f x) as [y|e] eqn:Hx; simpl; [|discriminate].
      destruct (for_append f l) as [ys|e] eqn:Hl; simpl; [|discriminate].
      intros [= <-]. constructor; [exact Hx|]. now apply IH.
    + intros H. inversion H as [|? y ? ys Hx Hl]; subst.
      apply IH in Hl. rewrite Hx, Hl. reflexivity.
Qed.

Lemma for_append_Raise {A B} (f : A -> exc B) l e :
  for_append f l = Raise e -> exists x, x ∈ l /\ f x = Raise e.
Proof.
  induction l as [|x l IH]; simpl; [discriminate|].
  destruct (f x) as [y|e'] eqn:Hx; simpl.
  - destruct (for_append f l) as [ys|e''] eqn:Hl; simpl; [discriminate|].
    intros [= ->]. destruct (IH eq_refl) as (x' & Hin & Hx').
    exists x'. split; [now right|exact Hx'].
  - intros [= ->]. exists x. split; [now left|exact Hx].
Qed.

Lemma for_append_total {A B} (f : A -> exc B) l :
  (forall x, exists y, f x = Ok y) -> exists r, for_append f l = Ok r.
Proof.
  intros Hf. induction l as [|x l [r IH]]; simpl; [now exists []|].
  destruct (Hf x) as [y Hy]. rewrite Hy, IH. simpl. eauto.
Qed.

Section ChunkerLoops.

Variable sent_tokenize : string -> list string.
Variable self : t.

(** Only the token-window mode can fail, and only on a zero limit. *)
Lemma chunk_doc_Raise doc e :
  chunk_doc sent_tokenize self doc = Raise e ->
  e = ValueError /\ paragraphs self = false /\
  keep_sentences self = false /\ tokens_limit self = 0.
Proof.
  unfold chunk_doc, token_windows, range.
  destruct (paragraphs self); [discriminate|].
  destruct (keep_sentences self); [discriminate|].
  destruct (tokens_limit self =? 0) eqn:H0; simpl; [|discriminate].
  apply Z.eqb_eq in H0. intros [= <-]. auto.
Qed.

Lemma chunk_doc_total doc :
  runs_through self -> exists x, chunk_doc sent_tokenize self doc = Ok x.
Proof.
  intros Hrun.
  destruct (chunk_doc sent_tokenize self doc) as [x|e] eqn:Hdoc; [eauto|].
  apply chunk_doc_Raise in Hdoc as (_ & Hp & Hk & Hl).
  destruct Hrun as [H|[H|H]]; congruence.
Qed.

(** The entry of a document is a list of chunks in every mode. *)
Lemma chunk_doc_list doc x :
  chunk_doc sent_tokenize self doc = Ok x -> exists chunks, x = PList chunks.
Proof.
  unfold chunk_doc.
  destruct (paragraphs self); [intros [= <-]; eauto|].
  destruct (keep_sentences self); [intros [= <-]; eauto|].
  destruct (token_windows _ _); simpl; [intros [= <-]; eauto|discriminate].
Qed.

Lemma chunk_docs_Raise docs e :
  chunk_docs sent_tokenize self docs = Raise e ->
  e = ValueError /\ paragraphs self = false /\
  keep_sentences self = false /\ tokens_limit self = 0.
Proof.
  intros H. apply for_append_Raise in H as (doc & _ & H).
  now apply chunk_doc_Raise in H.
Qed.

Lemma chunk_docs_total docs :
  runs_through self -> exists entry, chunk_docs sent_tokenize self docs = Ok entry.
Proof. intros Hrun. apply for_append_total. intros doc. now apply chunk_doc_total. Qed.

Lemma chunk_docs_lists docs entry :
  chunk_docs sent_tokenize self docs = Ok entry ->
  exists chunk_lists,
    entry = PList <$> chunk_lists /\ length chunk_lists = length (docs_of docs).
Proof.
  unfold chunk_docs. generalize (docs_of docs). intros l. revert entry.
  induction l as [|doc l IH]; intros entry H; apply for_append_Ok in H.
  - inversion H. now exists [].
  - inversion H as [|? x ? xs Hx Hxs]; subst.
    apply for_append_Ok, IH in Hxs as (ls & -> & Hlen).
    apply chunk_doc_list in Hx as [chunks ->].
    exists (chunks :: ls). simpl. auto.
Qed.

End ChunkerLoops.

Lemma chain_lists (chunk_lists : list (list pyval)) :
  chain_from_iterable (PList <$> chunk_lists) = concat chunk_lists.
Proof.
  unfold chain_from_iterable. rewrite <- list_fmap_compose.
  f_equal. induction chunk_lists as [|chunks ls IH]; [reflexivity|].
  rewrite fmap_cons. simpl. f_equal. exact IH.
Qed.

Lemma flatten_loop_from (post : list (list pyval)) : forall pre,
  flatten_loop (seq (length pre) (length post)) (pre ++ post)
  = Ok (pre ++ (chain_from_iterable <$> post))%list.
Proof.
  induction post as [|entry post IH]; intros pre; simpl; [reflexivity|].
  unfold getitem. rewrite list_lookup_middle by reflexivity. simpl.
  rewrite insert_app_r_alt by lia. rewrite Nat.sub_diag. simpl.
  replace (S (length pre)) with (length (pre ++ [chain_from_iterable entry]))
    by (rewrite length_app; simpl; lia).
  rewrite (cons_middle _ pre post), app_assoc, IH.
  now rewrite <- app_assoc.
Qed.

Lemma flatten_loop_all (result : list (list pyval)) :
  flatten_loop (seq 0 (length result)) result
  = Ok (chain_from_iterable <$> result).
Proof. apply (flatten_loop_from result []). Qed.

(** What [__call__] returns once the loop over the batch has run. *)
Lemma call_after_loop sent_tokenize self batch result :
  for_append (chunk_docs sent_tokenize self) batch = Ok result ->
  call sent_tokenize self batch
  = if flatten_result self then
      match result with
      | (_ :: _) :: _ => Ok (chain_from_iterable <$> result)
      | _ => Raise IndexError
      end
    else Ok result.
Proof.
  intros Hloop. unfold call. rewrite Hloop. simpl.
  destruct (flatten_result self); [|reflexivity].
  destruct result as [|[|x first] rest]; try reflexivity.
  apply for_append_Ok in Hloop.
  inversion Hloop as [|docs ? rest' ? Hdocs _]; subst.
  apply chunk_docs_lists in Hdocs as (ls & Hls & _).
  destruct ls as [|chunks ls]; [discriminate|].
  injection Hls as -> ->. rewrite <- flatten_loop_all. reflexivity.
Qed.

Lemma call_loop_Raise sent_tokenize self batch e :
  for_append (chunk_docs sent_tokenize self) batch = Raise e ->
  call sent_tokenize self batch = Raise e.
Proof. intros Hloop. unfold call. now rewrite Hloop. Qed.

(** C1 (the code departs from the claim).  The claim: in the
    sentence-preserving mode the sentences accumulated into chunks are
    [f(document)] for the function [f] given to the constructor.  The code
    stores [f] and then calls [sent_tokenize]: two chunkers that differ only
    in the function they were built with return the same result, and a
    chunker built with the function that makes the whole document one
    sentence still cuts "Hello world. Bye now." where [sent_tokenize] does,
    while accumulating [f(document)] would give the one chunk
    "Hello world. Bye now.". *)
Theorem C1_sentencize_fn_not_used :
  (forall sent_tokenize f g keep_sentences tokens_limit flatten paras batch,
     call sent_tokenize (init f keep_sentences tokens_limit flatten paras) batch
     = call sent_tokenize (init g keep_sentences tokens_limit flatten paras)
         batch) /\
  (let f := fun doc : string => [doc] in
   let doc := "Hello world. Bye now." in
   call stop_tokenize (init f true 1 false false) [Doc doc]
   = Ok [[PList [PStr "Hello world."; PStr "Bye now."]]] /\
   sentence_chunks 1 (f doc) = ["Hello world. Bye now."]).
Proof.
  split.
  - intros. reflexivity.
  - repeat split; vm_compute; reflexivity.
Qed.

(** C3.  In the sentence-preserving mode with [tokens_limit >= 1], the
    chunks of a document are the joined groups of a partition of its
    sentences, and the word count of every chunk is at most [tokens_limit]
    plus the word count of the first sentence of its group. *)
Theorem C3_sentence_chunk_budget
    (sent_tokenize : string -> list string) (self : t) (doc : string) :
  paragraphs self = false ->
  keep_sentences self = true ->
  1 <= tokens_limit self ->
  exists groups,
    chunk_doc sent_tokenize self doc
    = Ok (PList (PStr <$> (Str.join " " <$> groups))) /\
    concat groups = sent_tokenize doc /\
    Forall (fun g => exists first others,
              g = first :: others /\
              word_count (Str.join " " g)
              <= tokens_limit self + word_count first) groups.
Proof.
  intros Hpar Hkeep Hlim. unfold chunk_doc. rewrite Hpar, Hkeep.
  rewrite sentence_chunks_greedy.
  destruct (greedy_groups (tokens_limit self) (sent_tokenize doc) 0 []
              (counter_ok_init _)) as (groups & Heq & Hcat & Hall).
  exists groups. rewrite Heq. split; [reflexivity|]. split; [exact Hcat|].
  eapply Forall_impl; [exact Hall|].
  intros g Hg. apply bounded_group_words; [lia|exact Hg].
Qed.

Lemma C3_sentence_chunk_budget_witness :
  exists groups,
    chunk_doc stop_tokenize (init stop_tokenize true 5 false false)
      "One two three. Four five six. Seven."
    = Ok (PList (PStr <$> (Str.join " " <$> groups))) /\
    concat groups = stop_tokenize "One two three. Four five six. Seven." /\
    Forall (fun g => exists first others,
              g = first :: others /\
              word_count (Str.join " " g) <= 5 + word_count first) groups.
Proof.
  apply (C3_sentence_chunk_budget stop_tokenize
           (init stop_tokenize true 5 false false)
           "One two three. Four five six. Seven.");
    [reflexivity | reflexivity | simpl; lia].
Defined.

(** C4, as stated, fails: a sentence longer than the limit that arrives
    when a group is open starts the next group with the counter at zero,
    and later sentences join it; it is not a chunk of its own. *)
Lemma C4_oversized_sentence_not_alone :
  ~ (forall limit sentences s,
       In s sentences -> limit < word_count s ->
       In s (sentence_chunks limit sentences)).
Proof.
  intros H.
  specialize (H 2 ["Hi."; "This one is long."; "Bye."] "This one is long.").
  vm_compute in H.
  destruct H as [H|[H|H]]; try discriminate; auto.
Qed.

(** C4 (amended).  The loop is the greedy accumulation of the
    specification: the count of each sentence is added to the counter
    before the sentence is appended; when the counter exceeds the limit and
    the group is not empty, the group is flushed as one chunk joined with
    single spaces, the counter is reset to zero and the sentence starts the
    next group; at the end a non-empty group is flushed.  No sentence is
    cut: the chunks are the joined groups of a partition of the sentences.
    A sentence longer than the limit is the first of its group, and when it
    is the first sentence of the document it is a chunk of its own. *)
Theorem C4_greedy_accumulation (limit : Z) (sentences : list string) :
  sentence_chunks limit sentences = greedy limit 0 [] sentences /\
  (exists groups,
     sentence_chunks limit sentences = Str.join " " <$> groups /\
     concat groups = sentences /\
     Forall (fun g => exists first others,
               g = first :: others /\
               Forall (fun s => word_count s <= limit) others) groups) /\
  (forall s rest,
     sentences = s :: rest -> limit < word_count s ->
     exists more, sentence_chunks limit sentences = s :: more).
Proof.
  split; [apply sentence_chunks_greedy|]. split.
  - rewrite sentence_chunks_greedy.
    destruct (greedy_groups limit sentences 0 [] (counter_ok_init _))
      as (groups & Heq & Hcat & Hall).
    exists groups. repeat split; try assumption.
    eapply Forall_impl; [exact Hall|].
    intros g Hg. now apply bounded_group_tail.
  - intros s rest -> Hbig. rewrite sentence_chunks_greedy.
    now apply greedy_first_oversized.
Qed.

Lemma C4_greedy_accumulation_witness :
  exists more,
    sentence_chunks 2 ["This one is long."; "Hi."; "Bye."]
    = "This one is long." :: more.
Proof.
  destruct (C4_greedy_accumulation 2 ["This one is long."; "Hi."; "Bye."])
    as (_ & _ & Hfirst).
  apply (Hfirst "This one is long." ["Hi."; "Bye."]);
    [reflexivity | vm_compute; reflexivity].
Defined.

(** C5.  In the paragraph mode the chunks of a document are its pieces
    between double newlines (joining the pieces with the delimiter gives the
    document back), each stripped, without those of stripped length 40 or
    less, in their order; the document of the example gives one chunk, its
    second paragraph. *)
Theorem C5_paragraph_mode :
  (forall (sent_tokenize : string -> list string) (self : t) (doc : string),
     paragraphs self = true ->
     exists pieces,
       pieces = Str.split_para doc /\
       Str.join Str.para_sep pieces = doc /\
       chunk_doc sent_tokenize self doc
       = Ok (PList (PStr <$> filter (fun p => ~ (Str.len p <= 40)%nat)
                                    (Str.strip <$> pieces)))) /\
  (forall sent_tokenize f keep_sentences tokens_limit,
     call sent_tokenize (init f keep_sentences tokens_limit false true)
       [Doc ("Short." ++ Str.para_sep ++
             "This is a long enough paragraph to survive the forty character filter easily.")]
     = Ok [[PList [PStr "This is a long enough paragraph to survive the forty character filter easily."]]]).
Proof.
  split.
  - intros tok self doc Hpar. exists (Str.split_para doc).
    split; [reflexivity|]. split; [apply join_split_para|].
    unfold chunk_doc, paragraph_chunks. rewrite Hpar.
    now rewrite filter_long_pieces.
  - intros. vm_compute. reflexivity.
Qed.

Lemma C5_paragraph_mode_witness :
  exists pieces,
    pieces = Str.split_para (" a" ++ Str.para_sep ++ "b") /\
    Str.join Str.para_sep pieces = " a" ++ Str.para_sep ++ "b" /\
    chunk_doc stop_tokenize (init stop_tokenize true 400 false true)
      (" a" ++ Str.para_sep ++ "b")
    = Ok (PList (PStr <$> filter (fun p => ~ (Str.len p <= 40)%nat)
                                 (Str.strip <$> pieces))).
Proof.
  destruct C5_paragraph_mode as [Hgen _].
  apply (Hgen stop_tokenize (init stop_tokenize true 400 false true)
           (" a" ++ Str.para_sep ++ "b")).
  reflexivity.
Defined.

(** C6.  In the token-window mode with [tokens_limit >= 1] the chunks of a
    document are windows over its whitespace-delimited tokens: every window
    but the last has exactly [tokens_limit] tokens, the last has between 1
    and [tokens_limit], each chunk is the list of the tokens of its window,
    and the windows concatenated are the token list.  With a limit of 3,
    "a b c d e f g" gives [[a b c] [d e f] [g]]. *)
Theorem C6_token_window_mode :
  (forall (sent_tokenize : string -> list string) (self : t) (doc : string),
     paragraphs self = false ->
     keep_sentences self = false ->
     1 <= tokens_limit self ->
     exists windows,
       chunk_doc sent_tokenize self doc
       = Ok (PList ((fun w => PList (PStr <$> w)) <$> windows)) /\
       concat windows = Str.split doc /\
       full_windows (Z.to_nat (tokens_limit self)) windows) /\
  (forall sent_tokenize f,
     call sent_tokenize (init f false 3 false false) [Doc "a b c d e f g"]
     = Ok [[PList [PList [PStr "a"; PStr "b"; PStr "c"];
                   PList [PStr "d"; PStr "e"; PStr "f"];
                   PList [PStr "g"]]]]).
Proof.
  split.
  - intros tok self doc Hpar Hkeep Hlim. unfold chunk_doc.
    rewrite Hpar, Hkeep.
    pose proof (window_count_bounds (Z.of_nat (length (Str.split doc)))
                  (tokens_limit self) ltac:(lia) ltac:(lia)) as Hcount.
    revert Hcount.
    replace (tokens_limit self) with (Z.of_nat (Z.to_nat (tokens_limit self)))
      by lia.
    rewrite Nat2Z.id. intros Hcount.
    rewrite token_windows_seq by lia. simpl.
    eexists. split; [reflexivity|].
    split.
    + apply windows_concat. nia.
    + apply windows_full; nia.
  - intros. vm_compute. reflexivity.
Qed.

Lemma C6_token_window_mode_witness :
  exists windows,
    chunk_doc stop_tokenize (init stop_tokenize false 2 false false)
      "to be or not to"
    = Ok (PList ((fun w => PList (PStr <$> w)) <$> windows)) /\
    concat windows = Str.split "to be or not to" /\
    full_windows 2 windows.
Proof.
  destruct C6_token_window_mode as [Hgen _].
  apply (Hgen stop_tokenize (init stop_tokenize false 2 false false)
           "to be or not to"); [reflexivity | reflexivity | simpl; lia].
Defined.

(** C2, as stated, fails: with a reference shorter than the batch the call
    returns, and the result is cut to the shorter length. *)
Lemma C2_length_mismatch_returns :
  ~ (forall (batch_s : list string) (ref : list (list nat)),
       length batch_s <> length ref ->
       exists e, StringMultiplier.call batch_s ref = Raise e).
Proof.
  intros H.
  destruct (H ["x"; "y"] [[1; 2; 3]]%nat) as [e He]; [simpl; lia|].
  discriminate He.
Qed.

(** C2 (amended).  [multiply] never fails: it pairs the two inputs up to
    the length of the shorter one and returns one entry per pair; the
    surplus elements of the longer input are ignored. *)
Theorem C2_multiply_truncates {A} (batch_s : list string)
    (ref : list (list A)) :
  exists res,
    StringMultiplier.call batch_s ref = Ok res /\
    length res = Nat.min (length batch_s) (length ref) /\
    forall i,
      res !! i = match batch_s !! i, ref !! i with
                 | Some s, Some r => Some (replicate (length r) s)
                 | _, _ => None
                 end.
Proof.
  eexists. split; [apply multiplier_call|]. split.
  - apply length_zip_with.
  - apply multiplier_lookup.
Qed.

(** C7.  When [batch_s] and [ref] have the same length, [multiply] returns
    (also on the empty batch) a result of that length; at every index [i]
    below that length the entry is [batch_s[i]] repeated [len(ref[i])]
    times, each of its elements being [batch_s[i]]; for an empty [ref[i]]
    it is the empty list. *)
Theorem C7_multiply_equal_lengths {A} (batch_s : list string)
    (ref : list (list A)) :
  length batch_s = length ref ->
  exists res,
    StringMultiplier.call batch_s ref = Ok res /\
    length res = length batch_s /\
    (forall i, (i < length batch_s)%nat ->
       exists s r,
         batch_s !! i = Some s /\ ref !! i = Some r /\
         res !! i = Some (replicate (length r) s)) /\
    (forall i s r,
       batch_s !! i = Some s -> ref !! i = Some r ->
       res !! i = Some (replicate (length r) s) /\
       length (replicate (length r) s) = length r /\
       Forall (fun x => x = s) (replicate (length r) s)) /\
    (forall i, ref !! i = Some [] -> res !! i = Some []).
Proof.
  intros Hlen. eexists. split; [apply multiplier_call|].
  split; [rewrite length_zip_with; lia|]. split; [|split].
  - intros i Hi.
    destruct (lookup_lt_is_Some_2 batch_s i Hi) as [s Hs].
    destruct (lookup_lt_is_Some_2 ref i ltac:(lia)) as [r Hr].
    exists s, r. now rewrite multiplier_lookup, Hs, Hr.
  - intros i s r Hs Hr. rewrite multiplier_lookup, Hs, Hr.
    split; [reflexivity|]. split; [apply length_replicate|].
    apply Forall_replicate. reflexivity.
  - intros i Hr.
    assert (Hi : (i < length batch_s)%nat)
      by (rewrite Hlen; apply lookup_lt_is_Some_1; eauto).
    destruct (lookup_lt_is_Some_2 batch_s i Hi) as [s Hs].
    now rewrite multiplier_lookup, Hs, Hr.
Qed.

Lemma C7_multiply_equal_lengths_witness :
  exists res,
    StringMultiplier.call ["x"; "y"] [[1%nat; 2%nat; 3%nat]; []] = Ok res /\
    length res = 2%nat /\
    (forall i, (i < 2)%nat ->
       exists s r,
         ["x"; "y"] !! i = Some s /\
         [[1%nat; 2%nat; 3%nat]; []] !! i = Some r /\
         res !! i = Some (replicate (length r) s)) /\
    (forall i s r,
       ["x"; "y"] !! i = Some s ->
       [[1%nat; 2%nat; 3%nat]; []] !! i = Some r ->
       res !! i = Some (replicate (length r) s) /\
       length (replicate (length r) s) = length r /\
       Forall (fun x => x = s) (replicate (length r) s)) /\
    (forall i, [[1%nat; 2%nat; 3%nat]; []] !! i = Some [] ->
       res !! i = Some []).
Proof.
  apply (C7_multiply_equal_lengths ["x"; "y"]
           [[1%nat; 2%nat; 3%nat]; []]).
  reflexivity.
Defined.

(** C8, as stated, fails: with [flatten_result] the empty batch raises,
    the token-window mode raises on a limit of zero, and [multiply] returns
    fewer entries than [batch_s] has when [ref] is shorter. *)
Lemma C8_not_every_batch_returns :
  ~ (forall sent_tokenize self batch,
       exists res, call sent_tokenize self batch = Ok res /\
                   length res = length batch) /\
  ~ (forall (batch_s : list string) (ref : list (list nat)),
       exists res, StringMultiplier.call batch_s ref = Ok res /\
                   length res = length batch_s).
Proof.
  split; intros H.
  - destruct (H stop_tokenize (init stop_tokenize true 400 true false) [])
      as (res & Hres & _).
    discriminate Hres.
  - destruct (H ["x"; "y"] [[1]]%nat) as (res & Hres & Hlen).
    injection Hres as <-. discriminate Hlen.
Qed.

(** C8 (amended).  When the token-window mode is not used with a limit of
    zero, and [flatten_result] is off or the first batch element has a
    document, [DocumentChunker] returns one entry per batch element, in
    order, and the entry of an element is computed from that element alone
    (its per-document chunk lists, concatenated under [flatten_result]).
    [StringMultiplier] always returns, one entry per pair of [batch_s] and
    [ref] up to the shorter of the two, computed from that pair alone. *)
Theorem C8_batch_shape {A} (sent_tokenize : string -> list string)
    (self : t) (batch : list docs_arg)
    (batch_s : list string) (ref : list (list A)) :
  runs_through self ->
  (flatten_result self = false \/
   exists docs rest d ds, batch = docs :: rest /\ docs_of docs = d :: ds) ->
  (exists res,
     call sent_tokenize self batch = Ok res /\
     length res = length batch /\
     Forall2 (fun docs entry =>
                exists lists,
                  chunk_docs sent_tokenize self docs = Ok lists /\
                  entry = if flatten_result self
                          then chain_from_iterable lists else lists)
             batch res) /\
  (exists res,
     StringMultiplier.call batch_s ref = Ok res /\
     length res = Nat.min (length batch_s) (length ref) /\
     forall i,
       res !! i = match batch_s !! i, ref !! i with
                  | Some s, Some r => Some (replicate (length r) s)
                  | _, _ => None
                  end).
Proof.
  intros Hrun Hfirst. split.
  - destruct (for_append_total (chunk_docs sent_tokenize self) batch
                (fun docs => chunk_docs_total sent_tokenize self docs Hrun))
      as [result Hloop].
    pose proof Hloop as Hall. apply for_append_Ok in Hall.
    rewrite (call_after_loop _ _ _ _ Hloop).
    destruct (flatten_result self) eqn:Hflat.
    + destruct Hfirst as [|(docs & rest & d & ds & -> & Hdocs)];
        [discriminate|].
      inversion Hall as [|? entry ? entries Hentry Hrest]; subst.
      destruct (chunk_docs_lists _ _ _ _ Hentry) as (ls & -> & Hlen).
      rewrite Hdocs in Hlen. destruct ls as [|chunks ls]; [discriminate|].
      eexists. split; [reflexivity|].
      split; [rewrite length_fmap; now apply Forall2_length in Hall|].
      apply Forall2_fmap_r.
      eapply Forall2_impl; [exact Hall|]. simpl. eauto.
    + exists result. split; [reflexivity|].
      split; [now apply Forall2_length in Hall|].
      eapply Forall2_impl; [exact Hall|]. simpl. eauto.
  - eexists. split; [apply multiplier_call|]. split.
    + apply length_zip_with.
    + apply multiplier_lookup.
Qed.

Lemma C8_batch_shape_witness :
  (exists res,
     call stop_tokenize (init stop_tokenize true 2 true false)
       [Doc "Hi there. Bye."; DocList []] = Ok res /\
     length res = 2%nat /\
     Forall2 (fun docs entry =>
                exists lists,
                  chunk_docs stop_tokenize
                    (init stop_tokenize true 2 true false) docs = Ok lists /\
                  entry = chain_from_iterable lists)
             [Doc "Hi there. Bye."; DocList []] res) /\
  (exists res,
     StringMultiplier.call ["x"; "y"] [[1; 2]]%nat = Ok res /\
     length res = 1%nat /\
     forall i,
       res !! i = match ["x"; "y"] !! i, [[1; 2]]%nat !! i with
                  | Some s, Some r => Some (replicate (length r) s)
                  | _, _ => None
                  end).
Proof.
  apply (C8_batch_shape stop_tokenize (init stop_tokenize true 2 true false)
           [Doc "Hi there. Bye."; DocList []] ["x"; "y"] [[1; 2]]%nat).
  - right. left. reflexivity.
  - right. exists (Doc "Hi there. Bye."), [DocList []], "Hi there. Bye.", [].
    split; reflexivity.
Defined.




(** C10.  Once the loop over the batch has built [result], every entry of
    every batch element is a list, in each of the three modes; so the
    element inspected by the flatten check is a list whenever it exists,
    and with [flatten_result] and a first batch element that has a
    document, the call returns [result] with every entry replaced by the
    concatenation, in document order, of its per-document chunk lists. *)
Theorem C10_flatten_always_applied
    (sent_tokenize : string -> list string) (self : t)
    (batch : list docs_arg) (result : list (list pyval)) :
  for_append (chunk_docs sent_tokenize self) batch = Ok result ->
  Forall (Forall (fun x => isinstance_list x = true)) result /\
  (forall first x,
     result !! 0%nat = Some first -> first !! 0%nat = Some x ->
     isinstance_list x = true) /\
  Forall (fun entry => exists chunk_lists,
            entry = PList <$> chunk_lists /\
            chain_from_iterable entry = concat chunk_lists) result /\
  (flatten_result self = true ->
   (exists docs rest d ds, batch = docs :: rest /\ docs_of docs = d :: ds) ->
   call sent_tokenize self batch = Ok (chain_from_iterable <$> result)).
Proof.
  intros Hloop. pose proof Hloop as Hall. apply for_append_Ok in Hall.
  assert (Hlists : Forall (fun entry => exists chunk_lists,
                             entry = PList <$> chunk_lists) result).
  { clear Hloop. induction Hall as [|docs entry ? ? Hentry _ IH];
      constructor; [|exact IH].
    apply chunk_docs_lists in Hentry as (ls & -> & _). eauto. }
  assert (Hislist : Forall (Forall (fun x => isinstance_list x = true)) result).
  { eapply Forall_impl; [exact Hlists|]. intros entry [ls ->].
    apply Forall_fmap, Forall_forall. reflexivity. }
  split; [exact Hislist|]. split; [|split].
  - intros first x Hfirst Hx.
    rewrite Forall_lookup in Hislist. specialize (Hislist _ _ Hfirst).
    rewrite Forall_lookup in Hislist. exact (Hislist _ _ Hx).
  - eapply Forall_impl; [exact Hlists|]. intros entry [ls ->].
    exists ls. split; [reflexivity|apply chain_lists].
  - intros Hflat (docs & rest & d & ds & -> & Hdocs).
    rewrite (call_after_loop _ _ _ _ Hloop), Hflat.
    inversion Hall as [|? entry ? entries Hentry _]; subst.
    apply chunk_docs_lists in Hentry as (ls & -> & Hlen).
    rewrite Hdocs in Hlen. destruct ls; [discriminate|reflexivity].
Qed.

Lemma C10_flatten_always_applied_witness :
  call stop_tokenize (init stop_tokenize false 2 true false)
    [DocList ["a b c"; "d"]; DocList []]
  = Ok [[PList [PStr "a"; PStr "b"]; PList [PStr "c"]; PList [PStr "d"]]; []].
Proof.
  destruct (C10_flatten_always_applied stop_tokenize
              (init stop_tokenize false 2 true false)
              [DocList ["a b c"; "d"]; DocList []]
              [[PList [PList [PStr "a"; PStr "b"]; PList [PStr "c"]];
                PList [PList [PStr "d"]]]; []]
              eq_refl) as (_ & _ & _ & Hcall).
  apply Hcall; [reflexivity|].
  exists (DocList ["a b c"; "d"]), [DocList []], "a b c", ["d"].
  split; reflexivity.
Defined.

(** * Further properties *)

Import Shape.

(** ** Stripping *)

Lemma lstrip_idem s : Str.lstrip (Str.lstrip s) = Str.lstrip s.
Proof.
  induction s as [|c s IH]; [reflexivity|]. simpl.
  destruct (Str.isspace c) eqn:Hc; [exact IH|]. simpl. now rewrite Hc.
Qed.

Lemma rstrip_idem s : Str.rstrip (Str.rstrip s) = Str.rstrip s.
Proof.
  induction s as [|c s IH]; [reflexivity|]. simpl.
  destruct (Str.isspace c && Str.is_empty (Str.rstrip s)) eqn:Hc;
    [reflexivity|].
  simpl. now rewrite IH, Hc.
Qed.

Lemma rstrip_fixed_tail c s :
  Str.rstrip (String c s) = String c s -> Str.rstrip s = s.
Proof.
  simpl. destruct (Str.isspace c && Str.is_empty (Str.rstrip s));
    [discriminate|]. now intros [= ->].
Qed.

Lemma rstrip_lstrip_fixed s :
  Str.rstrip s = s -> Str.rstrip (Str.lstrip s) = Str.lstrip s.
Proof.
  induction s as [|c s IH]; intros Hfix; [reflexivity|]. simpl.
  destruct (Str.isspace c); [|exact Hfix].
  apply IH. now apply rstrip_fixed_tail in Hfix.
Qed.

Lemma strip_idem s : Str.strip (Str.strip s) = Str.strip s.
Proof.
  unfold Str.strip.
  rewrite (rstrip_lstrip_fixed (Str.rstrip s)) by apply rstrip_idem.
  apply lstrip_idem.
Qed.

Lemma lstrip_len s : (Str.len (Str.lstrip s) <= Str.len s)%nat.
Proof.
  induction s as [|c s IH]; simpl; [lia|].
  destruct (Str.isspace c); simpl; unfold Str.len in *; lia.
Qed.

Lemma rstrip_len s : (Str.len (Str.rstrip s) <= Str.len s)%nat.
Proof.
  induction s as [|c s IH]; simpl; [lia|].
  destruct (Str.isspace c && Str.is_empty (Str.rstrip s)); simpl;
    unfold Str.len in *; lia.
Qed.

Lemma strip_len s : (Str.len (Str.strip s) <= Str.len s)%nat.
Proof.
  unfold Str.strip. pose proof (lstrip_len (Str.rstrip s)).
  pose proof (rstrip_len s). lia.
Qed.

(** ** Paragraph breaks *)

Lemma has_para_break_cons2 c c' s :
  has_para_break (String c (String c' s))
  = (Ascii.eqb c Str.nl && Ascii.eqb c' Str.nl)
    || has_para_break (String c' s).
Proof. reflexivity. Qed.

Lemma has_para_break_tail c s :
  has_para_break (String c s) = false -> has_para_break s = false.
Proof.
  destruct s as [|c' s]; [reflexivity|]. rewrite has_para_break_cons2.
  intros H. now apply orb_false_iff in H.
Qed.

Lemma lstrip_no_break s :
  has_para_break s = false -> has_para_break (Str.lstrip s) = false.
Proof.
  induction s as [|c s IH]; intros H; [reflexivity|]. simpl.
  destruct (Str.isspace c); [|exact H].
  apply IH. now apply has_para_break_tail in H.
Qed.

Lemma rstrip_head c s :
  Str.rstrip (String c s) = "" \/
  exists r, Str.rstrip (String c s) = String c r.
Proof.
  simpl. destruct (Str.isspace c && Str.is_empty (Str.rstrip s)); eauto.
Qed.

Lemma rstrip_no_break s :
  has_para_break s = false -> has_para_break (Str.rstrip s) = false.
Proof.
  induction s as [|c s IH]; intros H; [reflexivity|].
  pose proof (IH (has_para_break_tail _ _ H)) as Htail.
  simpl. destruct (Str.isspace c && Str.is_empty (Str.rstrip s));
    [reflexivity|].
  destruct s as [|c' s]; [reflexivity|].
  rewrite has_para_break_cons2 in H. apply orb_false_iff in H as [Hsep _].
  destruct (rstrip_head c' s) as [Hr|[r Hr]]; rewrite Hr in *; [reflexivity|].
  rewrite has_para_break_cons2, Hsep, Htail. reflexivity.
Qed.

Lemma strip_no_break s :
  has_para_break s = false -> has_para_break (Str.strip s) = false.
Proof. intros H. now apply lstrip_no_break, rstrip_no_break. Qed.

Lemma split_para_head c s :
  exists p ps,
    Str.split_para (String c s) = p :: ps /\
    ((p = "" /\ c = Str.nl) \/ exists q, p = String c q).
Proof.
  destruct s as [|c' s]; [exists (String c ""), []; eauto|].
  rewrite split_para_cons2.
  destruct (Ascii.eqb c Str.nl && Ascii.eqb c' Str.nl) eqn:Hsep.
  - apply andb_true_iff in Hsep as [Hc _]. apply Ascii.eqb_eq in Hc.
    exists "", (Str.split_para s). auto.
  - destruct (Str.split_para (String c' s)) as [|p ps] eqn:Hps;
      [now apply split_para_nonempty in Hps|].
    exists (String c p), ps. eauto.
Qed.

(** No piece of [split('\n\n')] holds the delimiter. *)
Lemma split_para_no_break s :
  Forall (fun p => has_para_break p = false) (Str.split_para s).
Proof.
  assert (H : Forall (fun p => has_para_break p = false) (Str.split_para s) /\
              forall c, Forall (fun p => has_para_break p = false)
                          (Str.split_para (String c s))); [|apply H].
  induction s as [|a s [IH1 IH2]].
  - split; [|intros c]; repeat constructor.
  - split; [apply IH2|]. intros c. rewrite split_para_cons2.
    destruct (Ascii.eqb c Str.nl && Ascii.eqb a Str.nl) eqn:Hsep.
    + constructor; [reflexivity|exact IH1].
    + specialize (IH2 a).
      destruct (split_para_head a s) as (p & ps & Hps & Hp).
      rewrite Hps in *. inversion IH2 as [|? ? Hpb Hrest]; subst.
      simpl. constructor; [|exact Hrest].
      destruct Hp as [[-> _]|[q ->]]; [reflexivity|].
      rewrite has_para_break_cons2, Hsep, Hpb. reflexivity.
Qed.

Lemma len_append a b : Str.len (a ++ b) = (Str.len a + Str.len b)%nat.
Proof. unfold Str.len. induction a as [|c a IH]; simpl; congruence. Qed.

Lemma join_piece_len sep (l : list string) p :
  p ∈ l -> (Str.len p <= Str.len (Str.join sep l))%nat.
Proof.
  induction l as [|x l IH]; intros Hin; [inversion Hin|].
  destruct l as [|y l].
  - apply list_elem_of_singleton in Hin as ->. simpl. lia.
  - change (Str.join sep (x :: y :: l))
      with (x ++ sep ++ Str.join sep (y :: l)).
    rewrite !len_append.
    apply elem_of_cons in Hin as [->|Hin]; [lia|].
    specialize (IH Hin). lia.
Qed.

Lemma split_para_piece_len s p :
  p ∈ Str.split_para s -> (Str.len p <= Str.len s)%nat.
Proof.
  intros Hin.
  pose proof (join_piece_len Str.para_sep _ _ Hin) as Hlen.
  now rewrite join_split_para in Hlen.
Qed.

(** X1.  In the paragraph mode no chunk begins or ends with whitespace
    (stripping it again changes nothing), none holds a paragraph break,
    and each has more than 40 characters. *)
Theorem X1_paragraph_chunks_clean
    (sent_tokenize : string -> list string) (self : t) (doc : string) :
  paragraphs self = true ->
  exists chunks,
    chunk_doc sent_tokenize self doc = Ok (PList (PStr <$> chunks)) /\
    Forall (fun c => Str.strip c = c /\
                     has_para_break c = false /\
                     (40 < Str.len c)%nat) chunks.
Proof.
  intros Hpar. unfold chunk_doc. rewrite Hpar.
  exists (paragraph_chunks doc). split; [reflexivity|].
  unfold paragraph_chunks. apply Forall_forall. intros c Hc.
  apply list_elem_of_In, filter_In in Hc as [Hc Hlen].
  apply list_elem_of_In, list_elem_of_fmap in Hc as (p & -> & Hp).
  split; [apply strip_idem|]. split.
  - apply strip_no_break.
    pose proof (split_para_no_break doc) as Hall.
    rewrite Forall_forall in Hall. now apply Hall.
  - now apply Nat.ltb_lt in Hlen.
Qed.

Lemma X1_paragraph_chunks_clean_witness :
  exists chunks,
    chunk_doc stop_tokenize (init stop_tokenize true 400 false true)
      ("  A paragraph that is long enough to be kept by the filter.  "
       ++ Str.para_sep ++ "Short.")
    = Ok (PList (PStr <$> chunks)) /\
    Forall (fun c => Str.strip c = c /\
                     has_para_break c = false /\
                     (40 < Str.len c)%nat) chunks.
Proof.
  apply (X1_paragraph_chunks_clean stop_tokenize
           (init stop_tokenize true 400 false true)).
  reflexivity.
Defined.

(** X2.  In the paragraph mode a document of 40 characters or fewer gives
    no chunk at all, whatever it holds. *)
Theorem X2_short_document_vanishes
    (sent_tokenize : string -> list string) (self : t) (doc : string) :
  paragraphs self = true ->
  (Str.len doc <= 40)%nat ->
  chunk_doc sent_tokenize self doc = Ok (PList []).
Proof.
  intros Hpar Hshort. unfold chunk_doc. rewrite Hpar.
  replace (paragraph_chunks doc) with (@nil string); [reflexivity|].
  symmetry. unfold paragraph_chunks.
  pose proof (split_para_piece_len doc) as Hlen.
  assert (Hall : Forall (fun p => (Str.len p <= 40)%nat)
                   (Str.strip <$> Str.split_para doc)).
  { apply Forall_fmap, Forall_forall. intros q Hq. simpl.
    pose proof (strip_len q). specialize (Hlen q Hq). lia. }
  induction Hall as [|q qs Hq _ IHq]; [reflexivity|].
  simpl. destruct (40 <? Str.len q)%nat eqn:Hcmp; [|exact IHq].
  apply Nat.ltb_lt in Hcmp. lia.
Qed.

Lemma X2_short_document_vanishes_witness :
  chunk_doc stop_tokenize (init stop_tokenize true 400 false true)
    "A short note." = Ok (PList []).
Proof.
  apply (X2_short_document_vanishes stop_tokenize
           (init stop_tokenize true 400 false true) "A short note.");
    [reflexivity | vm_compute; lia].
Defined.

(** ** More on the sentence loop *)

Lemma total_words_joined (groups : list (list string)) :
  total_words (Str.join " " <$> groups) = total_words (concat groups).
Proof.
  induction groups as [|g groups IH]; [reflexivity|].
  rewrite fmap_cons. simpl. rewrite total_words_app, word_count_join, IH.
  reflexivity.
Qed.

Lemma groups_count (limit : Z) (groups : list (list string)) :
  Forall (bounded_group limit) groups ->
  (length groups <= length (concat groups))%nat /\
  (groups = [] <-> concat groups = []).
Proof.
  induction 1 as [|g groups (first & others & -> & _) _ [IHlen IHnil]].
  - split; [simpl; lia|tauto].
  - simpl. rewrite length_app. split; [lia|].
    split; discriminate.
Qed.

Lemma greedy_all_oversized limit sentences : forall counter s0,
  0 <= counter ->
  Forall (fun s => limit < word_count s) sentences ->
  greedy limit counter [s0] sentences = s0 :: sentences.
Proof.
  induction sentences as [|s rest IH]; intros counter s0 Hpos Hbig;
    [reflexivity|].
  inversion Hbig as [|? ? Hs Hrest]; subst. simpl.
  destruct (limit <? counter + word_count s) eqn:Hcmp;
    [|apply Z.ltb_ge in Hcmp; lia].
  simpl. f_equal. apply IH; [lia|exact Hrest].
Qed.

Lemma greedy_fits limit sentences : forall counter group,
  counter + total_words sentences <= limit ->
  greedy limit counter group sentences
  = match (group ++ sentences)%list with
    | [] => []
    | _ :: _ => [Str.join " " (group ++ sentences)]
    end.
Proof.
  induction sentences as [|s rest IH]; intros counter group Hfit.
  - simpl. rewrite app_nil_r. reflexivity.
  - simpl in *. pose proof (total_words_nonneg rest).
    destruct (limit <? counter + word_count s) eqn:Hcmp;
      [apply Z.ltb_lt in Hcmp; lia|].
    simpl. rewrite IH by lia. rewrite <- app_assoc. reflexivity.
Qed.

(** X3.  The sentence loop neither drops nor adds a token: the word counts
    of the chunks of a document add up to the word counts of its
    sentences. *)
Theorem X3_sentence_chunks_keep_words (limit : Z) (sentences : list string) :
  total_words (sentence_chunks limit sentences) = total_words sentences.
Proof.
  rewrite sentence_chunks_greedy.
  destruct (greedy_groups limit sentences 0 [] (counter_ok_init _))
    as (groups & -> & Hcat & _).
  rewrite total_words_joined, Hcat. reflexivity.
Qed.

(** X4.  When every sentence alone exceeds the limit (in particular for a
    negative limit), every sentence is a chunk of its own. *)
Theorem X4_oversized_sentences_stay_apart (limit : Z)
    (sentences : list string) :
  Forall (fun s => limit < word_count s) sentences ->
  sentence_chunks limit sentences = sentences.
Proof.
  intros Hbig. rewrite sentence_chunks_greedy.
  destruct sentences as [|s rest]; [reflexivity|].
  inversion Hbig as [|? ? Hs Hrest]; subst.
  simpl. rewrite andb_false_r.
  apply greedy_all_oversized; [|exact Hrest].
  pose proof (word_count_nonneg s). lia.
Qed.

Lemma X4_oversized_sentences_stay_apart_witness :
  sentence_chunks 2 ["One two three."; "Four five six seven."]
  = ["One two three."; "Four five six seven."].
Proof.
  apply (X4_oversized_sentences_stay_apart 2
           ["One two three."; "Four five six seven."]).
  repeat constructor.
Defined.

(** X5.  When the sentences of a document together stay within the limit,
    the document is one chunk: its sentences joined with single spaces. *)
Theorem X5_document_within_limit (limit : Z) (s : string)
    (rest : list string) :
  total_words (s :: rest) <= limit ->
  sentence_chunks limit (s :: rest) = [Str.join " " (s :: rest)].
Proof.
  intros Hfit. rewrite sentence_chunks_greedy.
  now rewrite greedy_fits by lia.
Qed.

Lemma X5_document_within_limit_witness :
  sentence_chunks 5 ["One two."; "Three."]
  = [Str.join " " ["One two."; "Three."]].
Proof.
  apply (X5_document_within_limit 5 "One two." ["Three."]).
  vm_compute. discriminate.
Defined.

(** X6.  There are at most as many chunks as sentences, and no chunk
    exactly when there is no sentence. *)
Theorem X6_chunk_count (limit : Z) (sentences : list string) :
  (length (sentence_chunks limit sentences) <= length sentences)%nat /\
  (sentence_chunks limit sentences = [] <-> sentences = []).
Proof.
  rewrite sentence_chunks_greedy.
  destruct (greedy_groups limit sentences 0 [] (counter_ok_init _))
    as (groups & -> & Hcat & Hall).
  apply groups_count in Hall as [Hlen Hnil]. simpl in Hcat.
  rewrite Hcat in *. rewrite length_fmap. split; [exact Hlen|].
  rewrite <- Hnil. split.
  - apply fmap_nil_inv.
  - now intros ->.
Qed.

(** X7.  When every sentence fits the limit, no chunk has more than twice
    the limit in words. *)
Theorem X7_chunks_within_twice_limit (limit : Z) (sentences : list string) :
  Forall (fun s => word_count s <= limit) sentences ->
  Forall (fun c => word_count c <= 2 * limit)
         (sentence_chunks limit sentences).
Proof.
  intros Hfit. rewrite sentence_chunks_greedy.
  destruct (greedy_groups limit sentences 0 [] (counter_ok_init _))
    as (groups & -> & Hcat & Hall).
  simpl in Hcat. subst sentences.
  apply Forall_fmap. induction Hall as [|g groups Hg _ IH];
    [constructor|].
  simpl in Hfit. apply Forall_app in Hfit as [Hg_fit Hrest].
  constructor; [|now apply IH].
  destruct Hg as (first & others & -> & Hothers). unfold compose.
  rewrite word_count_join. simpl.
  inversion Hg_fit as [|? ? Hfirst _]; subst.
  pose proof (word_count_nonneg first).
  destruct Hothers as [->|Hle]; simpl; lia.
Qed.

Lemma X7_chunks_within_twice_limit_witness :
  Forall (fun c => word_count c <= 2 * 3)
         (sentence_chunks 3 ["A b."; "C d."; "E f."; "G h."]).
Proof.
  apply (X7_chunks_within_twice_limit 3 ["A b."; "C d."; "E f."; "G h."]).
  repeat constructor; vm_compute; discriminate.
Defined.

(** ** More on the token windows *)

Lemma token_windows_partition (limit : Z) (toks : list string) :
  1 <= limit ->
  exists windows,
    token_windows limit toks = Ok windows /\
    concat windows = toks /\
    (length windows = window_count (Z.of_nat (length toks)) limit).
Proof.
  intros Hlim.
  pose proof (window_count_bounds (Z.of_nat (length toks)) limit
                ltac:(lia) ltac:(lia)) as Hcount.
  revert Hcount.
  replace limit with (Z.of_nat (Z.to_nat limit)) by lia.
  intros Hcount. rewrite token_windows_seq by lia.
  eexists. split; [reflexivity|]. split.
  - apply windows_concat. nia.
  - now rewrite length_fmap, length_seq.
Qed.

Lemma range_negative_step (stop step : Z) :
  0 <= stop -> step < 0 -> range 0 stop step = Ok [].
Proof.
  intros Hstop Hstep. unfold range, range_len.
  destruct (step =? 0) eqn:H0; [apply Z.eqb_eq in H0; lia|].
  destruct (0 <? step) eqn:Hpos; [apply Z.ltb_lt in Hpos; lia|].
  rewrite seqZ_nil; [reflexivity|].
  assert ((0 - stop - step - 1) / - step < 1); [|lia].
  apply Z.div_lt_upper_bound; lia.
Qed.

Lemma no_space_app a b :
  no_space (a ++ b) = no_space a && no_space b.
Proof.
  induction a as [|c a IH]; [reflexivity|]. simpl.
  now rewrite IH, andb_assoc.
Qed.

Lemma app_char_nonempty cur c : cur ++ String c "" <> "".
Proof. destruct cur; discriminate. Qed.

Lemma split_from_tokens s : forall cur,
  no_space cur = true ->
  Forall (fun t => t <> "" /\ no_space t = true) (Str.split_from cur s).
Proof.
  assert (Hclose : forall cur, no_space cur = true ->
            Forall (fun t => t <> "" /\ no_space t = true)
                   (Str.close_token cur)).
  { intros [|c cur] Hcur; repeat constructor; [discriminate|exact Hcur]. }
  induction s as [|c s IH]; intros cur Hcur; simpl; [now apply Hclose|].
  destruct (Str.isspace c) eqn:Hc.
  - apply Forall_app. split; [now apply Hclose|now apply IH].
  - apply IH. rewrite no_space_app, Hcur. simpl. now rewrite Hc.
Qed.

Lemma split_all_space s : all_space s = true -> Str.split s = [].
Proof.
  unfold Str.split. induction s as [|c s IH]; [reflexivity|]. simpl.
  intros H. apply andb_true_iff in H as [-> Hs]. now apply IH.
Qed.

Section TokenWindowEdges.

Variable sent_tokenize : string -> list string.
Variable self : t.
Hypothesis Hpar : paragraphs self = false.
Hypothesis Hkeep : keep_sentences self = false.

Lemma window_mode_entry doc :
  chunk_doc sent_tokenize self doc
  = bind (token_windows (tokens_limit self) (Str.split doc))
         (fun windows => Ok (PList ((fun w => PList (PStr <$> w)) <$> windows))).
Proof. unfold chunk_doc. now rewrite Hpar, Hkeep. Qed.

Lemma window_mode_zero_doc doc :
  tokens_limit self = 0 ->
  chunk_doc sent_tokenize self doc = Raise ValueError.
Proof.
  intros H0. rewrite window_mode_entry, H0. reflexivity.
Qed.

Lemma window_mode_zero_batch batch :
  tokens_limit self = 0 ->
  Exists (fun docs => docs_of docs <> []) batch ->
  for_append (chunk_docs sent_tokenize self) batch = Raise ValueError.
Proof.
  intros H0 Hsome. induction Hsome as [docs batch Hdocs|docs batch _ IH].
  - simpl. unfold chunk_docs.
    destruct (docs_of docs) as [|d ds]; [congruence|]. simpl.
    now rewrite window_mode_zero_doc.
  - simpl. rewrite IH.
    destruct (chunk_docs sent_tokenize self docs) as [entry|e] eqn:Hentry;
      [reflexivity|].
    now apply chunk_docs_Raise in Hentry as (-> & _).
Qed.

End TokenWindowEdges.

(** X8.  In the token-window mode a negative [tokens_limit] raises no
    error: every document gives an empty list of chunks, its text
    dropped. *)
Theorem X8_negative_limit_drops_document
    (sent_tokenize : string -> list string) (self : t) (doc : string) :
  paragraphs self = false ->
  keep_sentences self = false ->
  tokens_limit self < 0 ->
  chunk_doc sent_tokenize self doc = Ok (PList []).
Proof.
  intros Hpar Hkeep Hneg.
  rewrite window_mode_entry by assumption. unfold token_windows.
  rewrite range_negative_step by lia. reflexivity.
Qed.

Lemma X8_negative_limit_drops_document_witness :
  chunk_doc stop_tokenize (init stop_tokenize false (-3) false false)
    "a b c d e f g" = Ok (PList []).
Proof.
  apply (X8_negative_limit_drops_document stop_tokenize
           (init stop_tokenize false (-3) false false) "a b c d e f g");
    [reflexivity | reflexivity | simpl; lia].
Defined.

(** X9.  In the token-window mode with [tokens_limit = 0] the call raises
    a value error on every batch that holds a document, even an empty
    one, whatever [flatten_result] is. *)
Theorem X9_zero_limit_raises
    (sent_tokenize : string -> list string) (self : t)
    (batch : list docs_arg) :
  paragraphs self = false ->
  keep_sentences self = false ->
  tokens_limit self = 0 ->
  Exists (fun docs => docs_of docs <> []) batch ->
  call sent_tokenize self batch = Raise ValueError.
Proof.
  intros Hpar Hkeep H0 Hsome. apply call_loop_Raise.
  now apply window_mode_zero_batch.
Qed.

Lemma X9_zero_limit_raises_witness :
  call stop_tokenize (init stop_tokenize false 0 false false)
    [DocList []; Doc ""] = Raise ValueError.
Proof.
  apply (X9_zero_limit_raises stop_tokenize
           (init stop_tokenize false 0 false false) [DocList []; Doc ""]);
    try reflexivity.
  right. left. discriminate.
Defined.

(** X10.  In the token-window mode a document with at least one token and
    at most [tokens_limit] tokens is one chunk, the list of all its
    tokens. *)
Theorem X10_small_document_one_window
    (sent_tokenize : string -> list string) (self : t) (doc : string) :
  paragraphs self = false ->
  keep_sentences self = false ->
  Str.split doc <> [] ->
  Z.of_nat (length (Str.split doc)) <= tokens_limit self ->
  chunk_doc sent_tokenize self doc
  = Ok (PList [PList (PStr <$> Str.split doc)]).
Proof.
  intros Hpar Hkeep Hne Hfit.
  rewrite window_mode_entry by assumption.
  assert (Hlen : (0 < length (Str.split doc))%nat)
    by (destruct (Str.split doc); [congruence|simpl; lia]).
  revert Hfit. generalize (Str.split doc) Hlen. intros toks Htoks Hfit.
  replace (tokens_limit self) with (Z.of_nat (Z.to_nat (tokens_limit self)))
    by lia.
  rewrite token_windows_seq by lia.
  replace (window_count _ _) with 1%nat.
  - simpl. rewrite drop_0, take_ge by lia. reflexivity.
  - unfold window_count. symmetry.
    replace ((Z.of_nat (length toks) + Z.of_nat (Z.to_nat (tokens_limit self))
              - 1) / Z.of_nat (Z.to_nat (tokens_limit self))) with 1;
      [reflexivity|].
    apply Z.div_unique with (r := Z.of_nat (length toks) - 1); lia.
Qed.

Lemma X10_small_document_one_window_witness :
  chunk_doc stop_tokenize (init stop_tokenize false 400 false false)
    "to be or not to be"
  = Ok (PList [PList (PStr <$> Str.split "to be or not to be")]).
Proof.
  apply (X10_small_document_one_window stop_tokenize
           (init stop_tokenize false 400 false false) "to be or not to be");
    [reflexivity | reflexivity | vm_compute; discriminate
    | vm_compute; discriminate].
Defined.

(** X11.  In the token-window mode with a non-zero limit, a document made
    of whitespace only (the empty document too) gives an empty list of
    chunks. *)
Theorem X11_blank_document_no_window
    (sent_tokenize : string -> list string) (self : t) (doc : string) :
  paragraphs self = false ->
  keep_sentences self = false ->
  tokens_limit self <> 0 ->
  all_space doc = true ->
  chunk_doc sent_tokenize self doc = Ok (PList []).
Proof.
  intros Hpar Hkeep Hnz Hblank.
  rewrite window_mode_entry by assumption.
  rewrite split_all_space by assumption.
  unfold token_windows, range, range_len.
  destruct (tokens_limit self =? 0) eqn:H0;
    [apply Z.eqb_eq in H0; congruence|].
  rewrite seqZ_nil; [reflexivity|].
  destruct (0 <? tokens_limit self) eqn:Hpos.
  - apply Z.ltb_lt in Hpos. simpl.
    assert ((0 - 0 + tokens_limit self - 1) / tokens_limit self < 1); [|lia].
    apply Z.div_lt_upper_bound; lia.
  - apply Z.ltb_ge in Hpos. simpl.
    assert ((0 - 0 - tokens_limit self - 1) / - tokens_limit self < 1);
      [|lia].
    apply Z.div_lt_upper_bound; lia.
Qed.

Lemma X11_blank_document_no_window_witness :
  chunk_doc stop_tokenize (init stop_tokenize false 3 false false) "   "
  = Ok (PList []).
Proof.
  apply (X11_blank_document_no_window stop_tokenize
           (init stop_tokenize false 3 false false) "   ");
    [reflexivity | reflexivity | simpl; lia | reflexivity].
Defined.

(** X12.  In the token-window mode with [tokens_limit >= 1], no token of
    any chunk is empty or holds a whitespace character. *)
Theorem X12_window_tokens_clean
    (sent_tokenize : string -> list string) (self : t) (doc : string) :
  paragraphs self = false ->
  keep_sentences self = false ->
  1 <= tokens_limit self ->
  exists windows,
    chunk_doc sent_tokenize self doc
    = Ok (PList ((fun w => PList (PStr <$> w)) <$> windows)) /\
    Forall (Forall (fun t => t <> "" /\ no_space t = true)) windows.
Proof.
  intros Hpar Hkeep Hlim.
  rewrite window_mode_entry by assumption.
  destruct (token_windows_partition (tokens_limit self) (Str.split doc) Hlim)
    as (windows & -> & Hcat & _).
  exists windows. split; [reflexivity|].
  pose proof (split_from_tokens doc "" eq_refl) as Hall.
  fold (Str.split doc) in Hall. rewrite <- Hcat in Hall.
  now apply Forall_concat in Hall.
Qed.

Lemma X12_window_tokens_clean_witness :
  exists windows,
    chunk_doc stop_tokenize (init stop_tokenize false 2 false false)
      " to  be or "
    = Ok (PList ((fun w => PList (PStr <$> w)) <$> windows)) /\
    Forall (Forall (fun t => t <> "" /\ no_space t = true)) windows.
Proof.
  apply (X12_window_tokens_clean stop_tokenize
           (init stop_tokenize false 2 false false) " to  be or ");
    [reflexivity | reflexivity | simpl; lia].
Defined.

(** ** Batches *)

Lemma for_append_ext {A B} (f g : A -> exc B) l :
  (forall x, f x = g x) -> for_append f l = for_append g l.
Proof.
  intros Hfg. induction l as [|x l IH]; [reflexivity|].
  simpl. now rewrite Hfg, IH.
Qed.

Lemma for_append_app {A B} (f : A -> exc B) l1 l2 r1 r2 :
  for_append f l1 = Ok r1 ->
  for_append f l2 = Ok r2 ->
  for_append f (l1 ++ l2) = Ok (r1 ++ r2)%list.
Proof.
  revert r1. induction l1 as [|x l1 IH]; intros r1; simpl.
  - now intros [= <-].
  - destruct (f x) as [y|e]; simpl; [|discriminate].
    destruct (for_append f l1) as [ys|e]; simpl; [|discriminate].
    intros [= <-] H2. now rewrite (IH ys eq_refl H2).
Qed.

(** A call that returns has run its loop, and under [flatten_result] the
    first entry of the loop's result is not empty. *)
Lemma call_Ok_inv sent_tokenize self batch res :
  call sent_tokenize self batch = Ok res ->
  exists result,
    for_append (chunk_docs sent_tokenize self) batch = Ok result /\
    ((flatten_result self = false /\ res = result) \/
     (flatten_result self = true /\ res = chain_from_iterable <$> result /\
      exists x first rest, result = (x :: first) :: rest)).
Proof.
  intros Hcall.
  destruct (for_append (chunk_docs sent_tokenize self) batch)
    as [result|e] eqn:Hloop;
    [|rewrite (call_loop_Raise _ _ _ _ Hloop) in Hcall; discriminate].
  exists result. split; [reflexivity|].
  rewrite (call_after_loop _ _ _ _ Hloop) in Hcall.
  destruct (flatten_result self).
  - right. destruct result as [|[|x first] rest]; try discriminate.
    injection Hcall as <-. eauto 6.
  - left. injection Hcall as <-. auto.
Qed.

Lemma chain_strings (chunk_lists : list (list string)) :
  chain_from_iterable ((fun cs => PList (PStr <$> cs)) <$> chunk_lists)
  = PStr <$> concat chunk_lists.
Proof.
  unfold chain_from_iterable. rewrite <- list_fmap_compose.
  induction chunk_lists as [|cs css IH]; [reflexivity|].
  rewrite fmap_cons. simpl. rewrite IH, fmap_app. reflexivity.
Qed.

Lemma chunk_docs_strings sent_tokenize self docs entry :
  paragraphs self = true \/ keep_sentences self = true ->
  chunk_docs sent_tokenize self docs = Ok entry ->
  exists chunk_lists : list (list string),
    entry = (fun cs => PList (PStr <$> cs)) <$> chunk_lists.
Proof.
  intros Hmode. unfold chunk_docs. generalize (docs_of docs). intros l.
  revert entry. induction l as [|doc l IH]; intros entry H;
    apply for_append_Ok in H.
  - inversion H. now exists [].
  - inversion H as [|? x ? xs Hx Hxs]; subst.
    apply for_append_Ok, IH in Hxs as (css & ->).
    unfold chunk_doc in Hx.
    destruct (paragraphs self) eqn:Hp.
    + injection Hx as <-. now exists (paragraph_chunks doc :: css).
    + destruct Hmode as [Hmode|Hmode]; [discriminate|].
      rewrite Hmode in Hx. injection Hx as <-.
      now exists (sentence_chunks (tokens_limit self) (sent_tokenize doc)
                    :: css).
Qed.

(** X13.  In the paragraph mode the result depends on neither the sentence
    tokenizer nor [tokens_limit] nor [keep_sentences]. *)
Theorem X13_paragraph_mode_ignores_limit
    (tokenize tokenize' f f' : string -> list string)
    (keep keep' : bool) (limit limit' : Z) (flatten : bool)
    (batch : list docs_arg) :
  call tokenize (init f keep limit flatten true) batch
  = call tokenize' (init f' keep' limit' flatten true) batch.
Proof.
  unfold call.
  rewrite (for_append_ext
             (chunk_docs tokenize (init f keep limit flatten true))
             (chunk_docs tokenize' (init f' keep' limit' flatten true)));
    [reflexivity|].
  intros docs. unfold chunk_docs. now apply for_append_ext.
Qed.

(** X14.  Batches compose: when the calls on two batches return, the call
    on the two batches put end to end returns the two results put end to
    end. *)
Theorem X14_batches_compose
    (sent_tokenize : string -> list string) (self : t)
    (batch1 batch2 : list docs_arg) (res1 res2 : list (list pyval)) :
  call sent_tokenize self batch1 = Ok res1 ->
  call sent_tokenize self batch2 = Ok res2 ->
  call sent_tokenize self (batch1 ++ batch2) = Ok (res1 ++ res2)%list.
Proof.
  intros H1 H2.
  apply call_Ok_inv in H1 as (l1 & Hl1 & Hres1).
  apply call_Ok_inv in H2 as (l2 & Hl2 & Hres2).
  rewrite (call_after_loop _ _ _ _ (for_append_app _ _ _ _ _ Hl1 Hl2)).
  destruct Hres1 as [[Hflat ->]|(Hflat & -> & x & first & rest & ->)];
    rewrite Hflat in *.
  - destruct Hres2 as [[_ ->]|[Hflat2 _]]; [reflexivity|discriminate].
  - destruct Hres2 as [[Hflat2 _]|(_ & -> & _)]; [discriminate|].
    simpl. now rewrite fmap_app.
Qed.

Lemma X14_batches_compose_witness :
  call stop_tokenize (init stop_tokenize true 2 true false)
    ([Doc "Hi there. Bye."] ++ [DocList ["One."; "Two."]])
  = Ok ([[PStr "Hi there."; PStr "Bye."]]
        ++ [[PStr "One."; PStr "Two."]])%list.
Proof.
  apply (X14_batches_compose stop_tokenize
           (init stop_tokenize true 2 true false)
           [Doc "Hi there. Bye."] [DocList ["One."; "Two."]]);
    reflexivity.
Defined.

(** X15.  With [flatten_result], in the paragraph mode and in the
    sentence-preserving mode every entry of the result is a flat list of
    chunk strings. *)
Theorem X15_flattened_entries_are_strings
    (sent_tokenize : string -> list string) (self : t)
    (batch : list docs_arg) (res : list (list pyval)) :
  flatten_result self = true ->
  paragraphs self = true \/ keep_sentences self = true ->
  call sent_tokenize self batch = Ok res ->
  Forall (fun entry => exists chunks : list string, entry = PStr <$> chunks)
         res.
Proof.
  intros Hflat Hmode Hcall.
  apply call_Ok_inv in Hcall as (result & Hloop & Hres).
  destruct Hres as [[Hoff _]|(_ & -> & _)]; [congruence|].
  apply for_append_Ok in Hloop. apply Forall_fmap.
  induction Hloop as [|docs entry ? ? Hentry _ IH]; constructor; [|exact IH].
  apply (chunk_docs_strings _ _ _ _ Hmode) in Hentry as (css & ->).
  exists (concat css). apply chain_strings.
Qed.

Lemma X15_flattened_entries_are_strings_witness :
  Forall (fun entry => exists chunks : list string, entry = PStr <$> chunks)
         [[PStr "Hi there."; PStr "Bye."]; []].
Proof.
  apply (X15_flattened_entries_are_strings stop_tokenize
           (init stop_tokenize true 2 true false)
           [Doc "Hi there. Bye."; DocList []]);
    [reflexivity | right; reflexivity | reflexivity].
Defined.

(** ** More on StringMultiplier *)

Lemma multiplier_own_output {A} (batch_s : list string) :
  forall ref : list (list A),
  zip_with (fun s (r : list string) => replicate (length r) s) batch_s
    (zip_with (fun s (r : list A) => replicate (length r) s) batch_s ref)
  = zip_with (fun s (r : list A) => replicate (length r) s) batch_s ref.
Proof.
  induction batch_s as [|s batch_s IH]; intros [|r ref]; simpl;
    try reflexivity.
  now rewrite length_replicate, IH.
Qed.

(** X16.  The result of [multiply] has the shape of the reference it was
    built from: used as the reference of a second call on the same batch,
    it is returned unchanged. *)
Theorem X16_multiply_own_output {A} (batch_s : list string)
    (ref : list (list A)) (res : list (list string)) :
  StringMultiplier.call batch_s ref = Ok res ->
  StringMultiplier.call batch_s res = Ok res.
Proof.
  rewrite !multiplier_call. intros [= <-].
  now rewrite multiplier_own_output.
Qed.

Lemma X16_multiply_own_output_witness :
  StringMultiplier.call ["x"; "y"] [["x"; "x"]; []] = Ok [["x"; "x"]; []].
Proof.
  apply (X16_multiply_own_output ["x"; "y"] [[1; 2]; []]%nat).
  reflexivity.
Defined.

(** X17.  [multiply] composes over aligned batches: when the first batch
    and the first reference have the same length, the result on the
    batches put end to end is the two results put end to end. *)
Theorem X17_multiply_composes {A} (batch1 batch2 : list string)
    (ref1 ref2 : list (list A)) (res1 res2 : list (list string)) :
  length batch1 = length ref1 ->
  StringMultiplier.call batch1 ref1 = Ok res1 ->
  StringMultiplier.call batch2 ref2 = Ok res2 ->
  StringMultiplier.call (batch1 ++ batch2) (ref1 ++ ref2)
  = Ok (res1 ++ res2)%list.
Proof.
  rewrite !multiplier_call. intros Hlen [= <-] [= <-].
  now rewrite zip_with_app.
Qed.

Lemma X17_multiply_composes_witness :
  StringMultiplier.call (["x"] ++ ["y"])%list
    ([[1%nat; 2%nat]] ++ [[3%nat]])%list
  = Ok ([["x"; "x"]] ++ [["y"]])%list.
Proof.
  apply (X17_multiply_composes ["x"] ["y"] [[1; 2]]%nat [[3]]%nat);
    reflexivity.
Defined.
